(** * na62-farm-lib: the burst identifier handler and the L0 MEP decoder

    A shallow embedding of [monitoring/BurstIdHandler.h] and [l0/MEP.h].

    Conventions.
    - Fixed-width integers are values of [Z]; every store into a narrower
      object writes out the reduction modulo the width of that object.
      [uint] is 32 bits wide, [int] is 32 bits wide (two's complement).
    - Time is the wall-clock reading of [boost::timer::cpu_timer], a count
      of nanoseconds.  Operations that read the clock take the reading
      [now] as an argument.
    - Calls to code outside the two headers ([LOG_INFO], [sleep],
      [onBurstFinished]) are recorded, in order, as a list of effects. *)

From Stdlib Require Import ZArith List Bool Lia QArith Permutation Sorted.
From Stdlib Require Strings.Byte.
Import ListNotations.

#[local] Open Scope Z_scope.

(** ** Machine integers *)

Definition UINT_MODULUS : Z := 2 ^ 32.

(** [uint_fast32_t] is [unsigned long], 64 bits, on the x86-64 Linux hosts
    of the farm. *)
Definition UINT_FAST32_MAX : Z := 2 ^ 64 - 1.
Definition INT_MIN : Z := - 2 ^ 31.
Definition INT_MAX : Z := 2 ^ 31 - 1.

(** Conversion to [uint] (unsigned, 32 bits): reduction modulo [2^32]. *)
Definition to_uint (z : Z) : Z := z mod UINT_MODULUS.

(** Conversion to [int] (two's complement, 32 bits).  Arithmetic on
    [std::atomic<int>] wraps around; it has no undefined results. *)
Definition to_int (z : Z) : Z := (z - INT_MIN) mod UINT_MODULUS + INT_MIN.

(** ** monitoring/BurstIdHandler.h *)

Module BurstIdHandler.

(** Calls that leave the class, in the order they are made. *)
Inductive effect : Type :=
| LOG_INFO (nextBurstID : Z)      (* "Changing BurstID to <nextBurstID>" *)
| sleep (seconds : Z)
| onBurstFinished (currentBurstID : Z).
  (* [onBurstFinished()] takes no argument; the value of
     [currentBurstID_] at the time of the call is recorded with it. *)

(** The static members of the class.  [EOBReceivedTimer_] holds the clock
    reading taken by the last [start()]; the timer is never stopped, so
    [elapsed().wall] is the current reading minus this one.
    [burstFinishedMutex_] is [true] while the mutex is held. *)
Record statics : Type := mkStatics {
  EOBReceivedTimer_ : Z;
  nextBurstId_ : Z;
  currentBurstID_ : Z;
  lastFinishedBurst_ : Z;
  burstFinishedMutex_ : bool
}.

(** The statics before [initialize]: objects with static storage duration
    are zero-initialised, and the timer is started by its constructor, at
    the reading [t0]. *)
Definition static_init (t0 : Z) : statics :=
  mkStatics t0 0 0 0 false.

Definition setNextBurstID (now : Z) (nextBurstID : Z) (s : statics)
  : statics * list effect :=
  ( {| EOBReceivedTimer_ := now;
       nextBurstId_ := to_uint nextBurstID;
       currentBurstID_ := currentBurstID_ s;
       lastFinishedBurst_ := lastFinishedBurst_ s;
       burstFinishedMutex_ := burstFinishedMutex_ s |},
    [LOG_INFO nextBurstID] ).

Definition getCurrentBurstId (s : statics) : Z := currentBurstID_ s.

Definition getNextBurstId (s : statics) : Z := nextBurstId_ s.

Definition getTimeSinceLastEOB (now : Z) (s : statics) : Z :=
  now - EOBReceivedTimer_ s.

Definition isInBurst (s : statics) : bool :=
  nextBurstId_ s =? currentBurstID_ s.

(** [x > y] on exact rationals. *)
Definition Qgt_bool (x y : Q) : bool := negb (Qle_bool x y).

(** [EOBReceivedTimer_.elapsed().wall / 1E6 > 1000]: the nanosecond count
    divided by [1E6] (milliseconds), compared with [1000].  The division is
    carried out on exact rationals.  On integer counts the comparison in
    [double] has the same outcome: [1E6] and [1000] are exact, the
    quotient of [10^9] by [1E6] is exactly [1000], rounding is monotone,
    and the quotient for [10^9 + 1] exceeds [1000] by far more than the
    spacing of doubles near [1000]. *)
Definition debounce_elapsed (now : Z) (s : statics) : bool :=
  Qgt_bool (inject_Z (getTimeSinceLastEOB now s) / inject_Z 1000000)
           (inject_Z 1000).

Definition checkBurstIdChange (now : Z) (s : statics) : statics :=
  if negb (nextBurstId_ s =? currentBurstID_ s) && debounce_elapsed now s
  then {| EOBReceivedTimer_ := EOBReceivedTimer_ s;
          nextBurstId_ := nextBurstId_ s;
          currentBurstID_ := nextBurstId_ s;
          lastFinishedBurst_ := lastFinishedBurst_ s;
          burstFinishedMutex_ := burstFinishedMutex_ s |}
  else s.

Definition initialize (startBurstID : Z) (s : statics) : statics :=
  {| EOBReceivedTimer_ := EOBReceivedTimer_ s;
     nextBurstId_ := to_uint startBurstID;
     currentBurstID_ := to_uint startBurstID;
     lastFinishedBurst_ := lastFinishedBurst_ s;
     burstFinishedMutex_ := burstFinishedMutex_ s |}.

(** [try_lock] succeeds exactly when the mutex is free; the mutex is
    released again before the call returns. *)
Definition checkBurstFinished (s : statics) : statics * list effect :=
  if negb (isInBurst s) && negb (lastFinishedBurst_ s =? currentBurstID_ s)
  then
    if burstFinishedMutex_ s then (s, [])
    else
      ( {| EOBReceivedTimer_ := EOBReceivedTimer_ s;
           nextBurstId_ := nextBurstId_ s;
           currentBurstID_ := currentBurstID_ s;
           lastFinishedBurst_ := currentBurstID_ s;
           burstFinishedMutex_ := false |},
        [sleep 2; onBurstFinished (currentBurstID_ s)] )
  else (s, []).

(** A call of one of the three transitions, with the clock reading it
    observes where it reads the clock. *)
Inductive call : Type :=
| SetNextBurstID (now : Z) (nextBurstID : Z)
| CheckBurstIdChange (now : Z)
| CheckBurstFinished.

Definition step (c : call) (s : statics) : statics * list effect :=
  match c with
  | SetNextBurstID now id => setNextBurstID now id s
  | CheckBurstIdChange now => (checkBurstIdChange now s, [])
  | CheckBurstFinished => checkBurstFinished s
  end.

(** A sequence of calls, one after the other; the effects are
    concatenated in order. *)
Fixpoint run (cs : list call) (s : statics) : statics * list effect :=
  match cs with
  | [] => (s, [])
  | c :: cs' =>
      let '(s1, e1) := step c s in
      let '(s2, e2) := run cs' s1 in
      (s2, e1 ++ e2)
  end.

(** The burst ids for which [onBurstFinished] was called. *)
Fixpoint finished (es : list effect) : list Z :=
  match es with
  | [] => []
  | onBurstFinished b :: es' => b :: finished es'
  | _ :: es' => finished es'
  end.


(** One second, in the unit of the timer. *)
Definition second_ns : Z := 1000000000.

(** Burst 1 ends, burst 2 runs and ends, and then the id 1 is announced
    and promoted a second time. *)
Definition reused_id_calls : list call :=
  [ SetNextBurstID 0 2; CheckBurstFinished;
    CheckBurstIdChange (3 * second_ns);
    SetNextBurstID (4 * second_ns) 1; CheckBurstFinished;
    CheckBurstIdChange (7 * second_ns);
    SetNextBurstID (8 * second_ns) 2; CheckBurstFinished ].


(** In the run of [cs] from [s], after the notifications [log], no id that
    was already notified becomes current again, unless it is still the one
    held by [lastFinishedBurst_]. *)
Fixpoint no_stale_promotion (log : list Z) (cs : list call) (s : statics)
  : Prop :=
  match cs with
  | [] => True
  | c :: cs' =>
      (In (currentBurstID_ (fst (step c s))) log ->
       currentBurstID_ (fst (step c s)) = currentBurstID_ s \/
       lastFinishedBurst_ s = currentBurstID_ (fst (step c s)))
      /\ no_stale_promotion (log ++ finished (snd (step c s))) cs'
           (fst (step c s))
  end.

(** Burst 1 ends and is reported; burst 2 is promoted and left before
    it is polled; the id 1 becomes current again while it is still the
    last one reported; bursts 3 and 4 follow. *)
Definition returning_calls : list call :=
  [ SetNextBurstID 0 2; CheckBurstFinished;
    CheckBurstIdChange (3 * second_ns);
    SetNextBurstID (4 * second_ns) 1;
    CheckBurstIdChange (6 * second_ns);
    SetNextBurstID (7 * second_ns) 3; CheckBurstFinished;
    CheckBurstIdChange (9 * second_ns);
    SetNextBurstID (10 * second_ns) 4; CheckBurstFinished ].

(** Calls by kind. *)
Definition is_announce (c : call) : bool :=
  match c with
  | SetNextBurstID _ _ => true
  | _ => false
  end.

Definition is_promotion (c : call) : bool :=
  match c with
  | CheckBurstIdChange _ => true
  | _ => false
  end.

(** The ids passed to [setNextBurstID] by [cs], in order. *)
Fixpoint announced (cs : list call) : list Z :=
  match cs with
  | [] => []
  | SetNextBurstID _ id :: cs' => id :: announced cs'
  | _ :: cs' => announced cs'
  end.

(** The clock reading and the id of the last [setNextBurstID] of [cs];
    [d] when [cs] has none. *)
Fixpoint last_announce (d : Z * Z) (cs : list call) : Z * Z :=
  match cs with
  | [] => d
  | SetNextBurstID now id :: cs' => last_announce (now, id) cs'
  | _ :: cs' => last_announce d cs'
  end.

(** Polling without any announcement. *)
Definition polling_calls : list call :=
  [ CheckBurstFinished; CheckBurstIdChange (5 * second_ns);
    CheckBurstFinished; CheckBurstIdChange (9 * second_ns) ].

(** Announcements in any order, polled for the end of the burst, never
    promoted. *)
Definition unpromoted_calls : list call :=
  [ SetNextBurstID 0 9; CheckBurstFinished; SetNextBurstID 1 4;
    CheckBurstFinished; CheckBurstFinished ].

End BurstIdHandler.

(** ** l0/MEP.h *)

Module l0.

(** The address space: every address holds one byte.  A received frame
    lives in this memory, and so does everything that points into it. *)
Definition memory : Type := Z -> Byte.byte.

Definition load_uint8 (m : memory) (p : Z) : Z := Z.of_N (Byte.to_N (m p)).

(** Little-endian loads, as on the x86-64 hosts of the farm. *)
Definition load_uint16 (m : memory) (p : Z) : Z :=
  load_uint8 m p + 2 ^ 8 * load_uint8 m (p + 1).

Definition load_uint32 (m : memory) (p : Z) : Z :=
  load_uint16 m p + 2 ^ 16 * load_uint16 m (p + 2).

Definition store_uint8 (m : memory) (p : Z) (b : Byte.byte) : memory :=
  fun q => if q =? p then b else m q.

(** *** struct MEP_HDR

    The structure is packed: the fields follow each other without padding,
    in declaration order, with these widths in bits. *)
Definition MEP_HDR_widths : list Z :=
  [ 24 (* firstEventNum *); 8 (* sourceID *); 16 (* mepLength *);
    8 (* eventCount *); 8 (* sourceSubID *) ].

(** [sizeof(MEP_HDR)], in bytes. *)
Definition sizeof_MEP_HDR : Z := fold_right Z.add 0 MEP_HDR_widths / 8.

(** Field reads through a [const MEP_HDR*].  [firstEventNum] is a 24-bit
    bit-field of a [uint32_t]: the low 24 bits of the word at offset 0;
    [sourceID] is the byte that follows it. *)
Definition MEP_HDR_firstEventNum (m : memory) (hdr : Z) : Z :=
  Z.land (load_uint32 m hdr) (Z.ones 24).
Definition MEP_HDR_sourceID (m : memory) (hdr : Z) : Z :=
  load_uint8 m (hdr + 3).
Definition MEP_HDR_mepLength (m : memory) (hdr : Z) : Z :=
  load_uint16 m (hdr + 4).
Definition MEP_HDR_eventCount (m : memory) (hdr : Z) : Z :=
  load_uint8 m (hdr + 6).
Definition MEP_HDR_sourceSubID (m : memory) (hdr : Z) : Z :=
  load_uint8 m (hdr + 7).

(** *** class MEPFragment (declared only)

    What the MEP keeps of a fragment: the byte range of the frame that the
    fragment aliases.  The owner of a fragment is the MEP whose
    [fragments_] holds it. *)
Record MEPFragment : Type := mkMEPFragment {
  fragmentData : Z;       (* address of the first byte of the record *)
  fragmentLength : Z      (* length of the record in bytes *)
}.

(** *** class MEP

    [eventCount_] is a [std::atomic<int>]; [etherFrame_] and [rawData_]
    are addresses; [fragments_] is the array of fragment handles. *)
Record MEP : Type := mkMEP {
  eventCount_ : Z;
  etherFrame_ : Z;
  rawData_ : Z;
  fragments_ : list MEPFragment;
  checkSumsVarified_ : bool
}.

Inductive exception : Type :=
| BrokenPacketReceivedError
| UnknownSourceIDFound.

(** [fragments_[n]]; an index outside the array has no defined result. *)
Definition getFragment (mep : MEP) (n : nat) : option MEPFragment :=
  nth_error (fragments_ mep) n.

Definition getSourceID (m : memory) (mep : MEP) : Z :=
  MEP_HDR_sourceID m (rawData_ mep).

Definition getFirstEventNum (m : memory) (mep : MEP) : Z :=
  MEP_HDR_firstEventNum m (rawData_ mep).

Definition getNumberOfFragments (m : memory) (mep : MEP) : Z :=
  MEP_HDR_eventCount m (rawData_ mep).

Definition getLength (m : memory) (mep : MEP) : Z :=
  MEP_HDR_mepLength m (rawData_ mep).

Definition getSourceSubID (m : memory) (mep : MEP) : Z :=
  MEP_HDR_sourceSubID m (rawData_ mep).

Definition getUDPPack (mep : MEP) : Z := etherFrame_ mep.

Definition getRawData (mep : MEP) : Z := etherFrame_ mep.

(** [--eventCount_ == 0]: one atomic decrement, then a comparison of the
    value it produced. *)
Definition deleteEvent (mep : MEP) : bool * MEP :=
  let c := to_int (eventCount_ mep - 1) in
  ( c =? 0,
    {| eventCount_ := c;
       etherFrame_ := etherFrame_ mep;
       rawData_ := rawData_ mep;
       fragments_ := fragments_ mep;
       checkSumsVarified_ := checkSumsVarified_ mep |} ).

(** The MEP after [n] further calls of [deleteEvent]. *)
Definition afterDeleteEvents (n : nat) (mep : MEP) : MEP :=
  Nat.iter n (fun x => snd (deleteEvent x)) mep.

(** Every fragment of [callers] reports its completion, in list order;
    each report is paired with the fragment that made it. *)
Fixpoint reportAll (callers : list nat) (mep : MEP)
  : list (nat * bool) * MEP :=
  match callers with
  | [] => ([], mep)
  | f :: fs =>
      let '(r, mep1) := deleteEvent mep in
      let '(rs, mep2) := reportAll fs mep1 in
      ((f, r) :: rs, mep2)
  end.

Section Collaborators.

(** [SourceIDManager] is not among these sources.  Its table is a
    parameter: the dense index of a source ID, or [None] for a source ID
    that is not registered. *)
Variable sourceIDToNum : Z -> option Z.

(** [MEPFragment] is declared only.  [getDataWithHeaderLength m p] is the
    length in bytes that the fragment record at address [p] declares for
    itself. *)
Variable getDataWithHeaderLength : memory -> Z -> Z.

Definition getSourceIDNum (m : memory) (mep : MEP) : option Z :=
  sourceIDToNum (getSourceID m mep).

(** Modelled from the spec: the body of the constructor [MEP::MEP], which
    MEP.h only declares.  The checks and their order are those of the
    construction contract; the members are initialised as MEP.h declares
    them: [rawData_] is a [const MEP_HDR* const], the "pointer to the
    payload of the UDP packet", so it receives [data]; [etherFrame_], "the
    whole Ethernet frame", receives [originalData]; the completion counter
    starts at the header's [eventCount]. *)
Definition new_MEP (m : memory) (data dataLength originalData : Z)
  : exception + MEP :=
  if dataLength <? sizeof_MEP_HDR then inl BrokenPacketReceivedError
  else if negb (MEP_HDR_mepLength m data =? dataLength)
  then inl BrokenPacketReceivedError
  else
    match sourceIDToNum (MEP_HDR_sourceID m data) with
    | None => inl UnknownSourceIDFound
    | Some _ =>
        inr {| eventCount_ := MEP_HDR_eventCount m data;
               etherFrame_ := originalData;
               rawData_ := data;
               fragments_ := [];
               checkSumsVarified_ := false |}
    end.

(** Modelled from the spec: the walk over the payload made by
    [initializeMEPFragments], which MEP.h only declares.  [n] fragments
    remain to be sliced and [offset] is the position of the next record
    within the frame.  The walk fails when the payload is exhausted while
    fragments remain, when a record's own length runs past the end of the
    frame, and when the last record does not end where the header says the
    MEP ends: the size of the header and the lengths of the fragments must
    add up to [mepLength]. *)
Fixpoint sliceFragments (m : memory) (data dataLength mepLength : Z)
  (n : nat) (offset : Z) : exception + list MEPFragment :=
  match n with
  | O =>
      if offset =? mepLength then inr []
      else inl BrokenPacketReceivedError
  | S n' =>
      if dataLength <=? offset then inl BrokenPacketReceivedError
      else
        let len := getDataWithHeaderLength m (data + offset) in
        if dataLength <? offset + len then inl BrokenPacketReceivedError
        else
          match sliceFragments m data dataLength mepLength n'
                  (offset + len) with
          | inl e => inl e
          | inr fs => inr (mkMEPFragment (data + offset) len :: fs)
          end
  end.

(** Modelled from the spec: [initializeMEPFragments] slices
    [getNumberOfFragments()] records, the first one directly after the
    header, checks them against [getLength()], and stores their handles in
    [fragments_]. *)
Definition initializeMEPFragments (m : memory) (data dataLength : Z)
  (mep : MEP) : exception + MEP :=
  match sliceFragments m data dataLength (getLength m mep)
          (Z.to_nat (getNumberOfFragments m mep)) sizeof_MEP_HDR with
  | inl e => inl e
  | inr fs =>
      inr {| eventCount_ := eventCount_ mep;
             etherFrame_ := etherFrame_ mep;
             rawData_ := rawData_ mep;
             fragments_ := fs;
             checkSumsVarified_ := checkSumsVarified_ mep |}
  end.

End Collaborators.

(** *** Concrete frames *)

Definition byte_of_Z (z : Z) : Byte.byte :=
  match Byte.of_N (Z.to_N z) with
  | Some b => b
  | None => Byte.x00
  end.

(** A memory that holds [bytes] from address [base] on and zeros
    elsewhere. *)
Definition frame_at (base : Z) (bytes : list Z) : memory :=
  fun p =>
    if base <=? p then byte_of_Z (nth (Z.to_nat (p - base)) bytes 0)
    else Byte.x00.

(** A registry that knows source 5 only, at dense index 2. *)
Definition registry_5_2 (sourceID : Z) : option Z :=
  if sourceID =? 5 then Some 2 else None.

(** A fragment record that starts with its own length, 16 bits. *)
Definition length_prefixed (m : memory) (p : Z) : Z := load_uint16 m p.

(** Header [{firstEventNum = 1000, sourceID = 5, mepLength = 56,
    eventCount = 2, sourceSubID = 0}] followed by a record of 20 and a
    record of 28 bytes. *)
Definition frame56 : list Z :=
  [232; 3; 0; 5; 56; 0; 2; 0] ++ (20 :: repeat 0 19) ++ (28 :: repeat 0 27).

(** The frame as received: an Ethernet frame at address 958 whose UDP
    payload, the MEP, starts at address 1000. *)
Definition received56 : memory := frame_at 1000 frame56.

(** The example frame of 64 bytes as it can be laid out: header
    [{firstEventNum = 1000, sourceID = 5, mepLength = 64, eventCount = 2,
    sourceSubID = 0}], a record of 20 and a record of 28 bytes directly
    after it, and the 8 bytes that are left. *)
Definition frame64_short : list Z :=
  [232; 3; 0; 5; 64; 0; 2; 0] ++ (20 :: repeat 0 19) ++ (28 :: repeat 0 27)
  ++ repeat 0 8.

Definition received64_short : memory := frame_at 1000 frame64_short.

(** The same header followed by records of 20 and 36 bytes, which fill
    the frame. *)
Definition frame64 : list Z :=
  [232; 3; 0; 5; 64; 0; 2; 0] ++ (20 :: repeat 0 19) ++ (36 :: repeat 0 35).

Definition received64 : memory := frame_at 1000 frame64.

(** A registry that knows no source. *)
Definition registry_empty (sourceID : Z) : option Z := None.

(** A MEP whose completion counter holds [n]. *)
Definition mep_of_count (n : Z) : MEP := mkMEP n 0 0 [] false.

End l0.

(** * Properties *)

(** ** Machine integers *)

Lemma to_uint_small (z : Z) : 0 <= z < UINT_MODULUS -> to_uint z = z.
Proof. intros H. unfold to_uint. now apply Z.mod_small. Qed.

Lemma to_uint_range (z : Z) : 0 <= to_uint z < UINT_MODULUS.
Proof. unfold to_uint, UINT_MODULUS. apply Z.mod_pos_bound. lia. Qed.

Lemma to_int_small (z : Z) : INT_MIN <= z <= INT_MAX -> to_int z = z.
Proof.
  unfold to_int, INT_MIN, INT_MAX, UINT_MODULUS. intros H.
  rewrite Z.mod_small; lia.
Qed.

Lemma to_int_range (z : Z) : INT_MIN <= to_int z <= INT_MAX.
Proof.
  unfold to_int, INT_MIN, INT_MAX, UINT_MODULUS.
  pose proof (Z.mod_pos_bound (z - - 2 ^ 31) (2 ^ 32)). lia.
Qed.

(** ** The burst identifier handler *)

Section BurstIdHandlerFacts.

Import BurstIdHandler.

(** The test on the timer, in nanoseconds: more than one second has
    elapsed. *)
Lemma debounce_elapsed_ns (now : Z) (s : statics) :
  debounce_elapsed now s = (second_ns <? getTimeSinceLastEOB now s).
Proof.
  unfold debounce_elapsed, Qgt_bool, second_ns.
  set (w := getTimeSinceLastEOB now s).
  destruct (Z.ltb_spec 1000000000 w) as [Hlt | Hge].
  - apply negb_true_iff. apply not_true_is_false. intros Hle.
    apply Qle_bool_iff in Hle.
    unfold Qle, Qdiv, Qmult, Qinv, inject_Z in Hle. simpl in Hle. lia.
  - apply negb_false_iff. apply Qle_bool_iff.
    unfold Qle, Qdiv, Qmult, Qinv, inject_Z. simpl. lia.
Qed.

(** The two ways in which [checkBurstFinished] returns. *)
Lemma checkBurstFinished_cases (s : statics) :
  (checkBurstFinished s = (s, []) /\
   (nextBurstId_ s = currentBurstID_ s \/
    lastFinishedBurst_ s = currentBurstID_ s \/
    burstFinishedMutex_ s = true))
  \/
  (checkBurstFinished s =
     ( mkStatics (EOBReceivedTimer_ s) (nextBurstId_ s) (currentBurstID_ s)
         (currentBurstID_ s) (burstFinishedMutex_ s),
       [sleep 2; onBurstFinished (currentBurstID_ s)] ) /\
   nextBurstId_ s <> currentBurstID_ s /\
   lastFinishedBurst_ s <> currentBurstID_ s /\
   burstFinishedMutex_ s = false).
Proof.
  unfold checkBurstFinished, isInBurst.
  destruct (Z.eqb_spec (nextBurstId_ s) (currentBurstID_ s)) as [En | Nn];
    simpl; [left; auto |].
  destruct (Z.eqb_spec (lastFinishedBurst_ s) (currentBurstID_ s))
    as [El | Nl]; simpl; [left; auto |].
  destruct (burstFinishedMutex_ s) eqn:Hm; [left; auto | right; auto].
Qed.

(** C2.  [checkBurstIdChange] leaves [currentBurstID_] alone when
    [nextBurstId_] equals it, and when at most one second has elapsed
    since the timer was started; when the two ids differ and more than one
    second has elapsed, [currentBurstID_] becomes [nextBurstId_]. *)
Theorem checkBurstIdChange_debounce (now : Z) (s : statics) :
  (nextBurstId_ s = currentBurstID_ s \/
   getTimeSinceLastEOB now s <= second_ns ->
   currentBurstID_ (checkBurstIdChange now s) = currentBurstID_ s)
  /\
  (nextBurstId_ s <> currentBurstID_ s ->
   second_ns < getTimeSinceLastEOB now s ->
   currentBurstID_ (checkBurstIdChange now s) = nextBurstId_ s).
Proof.
  unfold checkBurstIdChange. rewrite debounce_elapsed_ns.
  destruct (Z.eqb_spec (nextBurstId_ s) (currentBurstID_ s)) as [E | N];
    destruct (Z.ltb_spec second_ns (getTimeSinceLastEOB now s)) as [L | G];
    simpl; split; intros; reflexivity || congruence || lia.
Qed.

Lemma checkBurstIdChange_debounce_witness :
  currentBurstID_
    (checkBurstIdChange second_ns (mkStatics 0 8 7 6 false)) = 7
  /\
  currentBurstID_
    (checkBurstIdChange (second_ns + 1) (mkStatics 0 8 7 6 false)) = 8.
Proof.
  split.
  - apply (proj1 (checkBurstIdChange_debounce second_ns
                    (mkStatics 0 8 7 6 false))).
    right. unfold getTimeSinceLastEOB. simpl. lia.
  - apply (proj2 (checkBurstIdChange_debounce (second_ns + 1)
                    (mkStatics 0 8 7 6 false))).
    + simpl. lia.
    + unfold getTimeSinceLastEOB, second_ns. simpl. lia.
Defined.

(** C7, as the claim has it, fails for an id of more than 32 bits:
    [setNextBurstID] takes a [uint_fast32_t] and stores it in a [uint].
    The id [2^32] is stored as 0. *)
Lemma setNextBurstID_wide_id :
  0 <= 2 ^ 32 <= UINT_FAST32_MAX /\
  nextBurstId_ (fst (setNextBurstID 0 (2 ^ 32) (static_init 0))) = 0 /\
  nextBurstId_ (fst (setNextBurstID 0 (2 ^ 32) (static_init 0))) <> 2 ^ 32.
Proof. vm_compute. repeat split; discriminate. Qed.

(** C7, amended.  [setNextBurstID now id] stores [id] reduced modulo
    [2^32] in [nextBurstId_], which is [id] itself for every id below
    [2^32]; it restarts the timer, so that no time has elapsed at [now]; it
    leaves [currentBurstID_] and [lastFinishedBurst_] as they were. *)
Theorem setNextBurstID_frame (now id : Z) (s : statics) :
  let s' := fst (setNextBurstID now id s) in
  nextBurstId_ s' = id mod 2 ^ 32 /\
  (0 <= id < 2 ^ 32 -> nextBurstId_ s' = id) /\
  EOBReceivedTimer_ s' = now /\
  getTimeSinceLastEOB now s' = 0 /\
  currentBurstID_ s' = currentBurstID_ s /\
  lastFinishedBurst_ s' = lastFinishedBurst_ s.
Proof.
  unfold setNextBurstID, getTimeSinceLastEOB; simpl.
  repeat split; try reflexivity; try lia.
  intros H. now apply to_uint_small.
Qed.

Lemma setNextBurstID_frame_witness :
  nextBurstId_ (fst (setNextBurstID 5 42 (mkStatics 0 8 7 6 false))) = 42.
Proof.
  apply (proj1 (proj2 (setNextBurstID_frame 5 42 (mkStatics 0 8 7 6 false)))).
  lia.
Defined.

(** Whether the handler is in a burst after [checkBurstIdChange]. *)
Lemma isInBurst_checkBurstIdChange (now : Z) (s : statics) :
  isInBurst (checkBurstIdChange now s) = isInBurst s || debounce_elapsed now s.
Proof.
  unfold checkBurstIdChange, isInBurst.
  destruct (Z.eqb_spec (nextBurstId_ s) (currentBurstID_ s)) as [E | N];
    simpl.
  - now apply Z.eqb_eq.
  - destruct (debounce_elapsed now s); simpl.
    + apply Z.eqb_refl.
    + now apply Z.eqb_neq.
Qed.

(** C10.  [checkBurstFinished] never writes [currentBurstID_],
    [nextBurstId_] or the timer, and leaves the mutex as it found it.
    Either it changes nothing and calls nothing, or it calls
    [onBurstFinished] and its one change is
    [lastFinishedBurst_ = currentBurstID_].  It therefore never moves the
    handler into or out of a burst: while the two ids differ they still
    differ after the call, until [checkBurstIdChange] copies
    [nextBurstId_] into [currentBurstID_]. *)
Theorem checkBurstFinished_frame (s : statics) :
  let s' := fst (checkBurstFinished s) in
  currentBurstID_ s' = currentBurstID_ s /\
  nextBurstId_ s' = nextBurstId_ s /\
  EOBReceivedTimer_ s' = EOBReceivedTimer_ s /\
  burstFinishedMutex_ s' = burstFinishedMutex_ s /\
  (checkBurstFinished s = (s, []) \/
   checkBurstFinished s =
     ( mkStatics (EOBReceivedTimer_ s) (nextBurstId_ s) (currentBurstID_ s)
         (currentBurstID_ s) (burstFinishedMutex_ s),
       [sleep 2; onBurstFinished (currentBurstID_ s)] )) /\
  isInBurst s' = isInBurst s /\
  (forall now, isInBurst (checkBurstIdChange now s') =
               isInBurst s || debounce_elapsed now s).
Proof.
  destruct (checkBurstFinished_cases s) as [[E _] | [E _]];
    rewrite E; simpl; repeat split; auto;
    intros now; now rewrite isInBurst_checkBurstIdChange.
Qed.

(** Step facts used by the induction over a run. *)
Lemma checkBurstIdChange_fields (now : Z) (s : statics) :
  lastFinishedBurst_ (checkBurstIdChange now s) = lastFinishedBurst_ s /\
  nextBurstId_ (checkBurstIdChange now s) = nextBurstId_ s /\
  (currentBurstID_ (checkBurstIdChange now s) = currentBurstID_ s \/
   currentBurstID_ (checkBurstIdChange now s) = nextBurstId_ s).
Proof.
  unfold checkBurstIdChange. destruct (negb _ && _); simpl; auto.
Qed.

Lemma finished_app (e1 e2 : list effect) :
  finished (e1 ++ e2) = finished e1 ++ finished e2.
Proof.
  induction e1 as [| e e1 IH]; simpl; [reflexivity |].
  destruct e; simpl; now rewrite IH.
Qed.

(** No id is notified twice as long as an id that was notified becomes
    current again only while [lastFinishedBurst_] still holds it.  [log]
    is what was notified before the run. *)
Lemma run_no_stale_promotion (cs : list call) :
  forall (s : statics) (log : list Z),
    NoDup log ->
    (In (currentBurstID_ s) log ->
     lastFinishedBurst_ s = currentBurstID_ s) ->
    no_stale_promotion log cs s ->
    NoDup (log ++ finished (snd (run cs s))).
Proof.
  induction cs as [| c cs IH]; intros s log Hnd Hinv Hns.
  - simpl. now rewrite app_nil_r.
  - destruct Hns as [Hstep Hrest]. cbn [run].
    destruct (step c s) as [s1 e1] eqn:Hs. cbn [fst snd] in *.
    specialize (IH s1 (log ++ finished e1)).
    destruct (run cs s1) as [s2 e2]. cbn [snd] in *.
    rewrite finished_app, app_assoc.
    destruct c as [t id | now |]; cbn [step] in Hs.
    + unfold setNextBurstID in Hs. injection Hs as <- <-.
      cbn [finished currentBurstID_ lastFinishedBurst_] in *.
      rewrite app_nil_r in *. now apply IH.
    + injection Hs as <- <-. cbn [finished] in *. rewrite app_nil_r in *.
      destruct (checkBurstIdChange_fields now s) as (Hl & _ & _).
      apply IH; [exact Hnd | | exact Hrest].
      intros Hin. rewrite Hl.
      destruct (Hstep Hin) as [Hc | Hc]; [| exact Hc].
      rewrite Hc in *. now apply Hinv.
    + destruct (checkBurstFinished_cases s)
        as [[E _] | [E (_ & Hlast & _)]]; rewrite E in Hs;
        injection Hs as <- <-; cbn [finished] in *.
      * rewrite app_nil_r in *. now apply IH.
      * cbn [currentBurstID_ lastFinishedBurst_] in *.
        apply IH; [| reflexivity | exact Hrest].
        apply NoDup_app; [exact Hnd | repeat constructor; intros [] |].
        intros b Hb [Hc | []]. subst b. apply Hlast. now apply Hinv.
Qed.

(** C3, as the claim has it, fails when a burst id comes back: burst 1 is
    reported finished, burst 2 is reported finished, and when the id 1 is
    current again it is reported a second time. *)
Lemma checkBurstFinished_reused_id :
  finished (snd (run reused_id_calls (initialize 1 (static_init 0))))
  = [1; 2; 1].
Proof. vm_compute. reflexivity. Qed.

(** C3, amended.  For calls made one after another:
    [checkBurstFinished] calls [onBurstFinished] only when [nextBurstId_]
    differs from [currentBurstID_] and [lastFinishedBurst_] differs from
    [currentBurstID_], and it then records
    [lastFinishedBurst_ = currentBurstID_]; a call that finds
    [lastFinishedBurst_ = currentBurstID_] changes nothing and calls
    nothing.  Only the last id reported is remembered: no id is notified
    twice in a sequence of calls in which an id that was already notified
    becomes current again only while [lastFinishedBurst_] still holds it,
    that is, before the end of another burst has been reported. *)
Theorem checkBurstFinished_once :
  (forall s b,
     In (onBurstFinished b) (snd (checkBurstFinished s)) ->
     nextBurstId_ s <> currentBurstID_ s /\
     lastFinishedBurst_ s <> currentBurstID_ s /\
     b = currentBurstID_ s /\
     lastFinishedBurst_ (fst (checkBurstFinished s)) = currentBurstID_ s)
  /\
  (forall s,
     lastFinishedBurst_ s = currentBurstID_ s ->
     checkBurstFinished s = (s, []))
  /\
  (forall s cs,
     no_stale_promotion [] cs s ->
     NoDup (finished (snd (run cs s)))).
Proof.
  split; [| split].
  - intros s b Hin.
    destruct (checkBurstFinished_cases s)
      as [[E _] | [E (Hn & Hl & _)]]; rewrite E in *; simpl in *.
    + contradiction.
    + destruct Hin as [Hin | [Hin | []]]; [discriminate |].
      injection Hin as <-. auto.
  - intros s Hl.
    destruct (checkBurstFinished_cases s)
      as [[E _] | [_ (_ & Hl' & _)]]; [exact E | contradiction].
  - intros s cs Hns.
    apply (run_no_stale_promotion cs s []); [constructor | intros [] | exact Hns].
Qed.

Lemma checkBurstFinished_once_witness :
  NoDup (finished (snd (run returning_calls (initialize 1 (static_init 0)))))
  /\ finished (snd (run returning_calls (initialize 1 (static_init 0))))
     = [1; 3].
Proof.
  split; [| vm_compute; reflexivity].
  apply (proj2 (proj2 checkBurstFinished_once)).
  vm_compute. intuition congruence.
Defined.

End BurstIdHandlerFacts.

(** ** The MEP: completion counter *)

Section MEPCounterFacts.

Import l0.

Lemma to_int_pred (a : Z) : to_int (to_int a - 1) = to_int (a - 1).
Proof.
  unfold to_int. f_equal.
  replace ((a - INT_MIN) mod UINT_MODULUS + INT_MIN - 1 - INT_MIN)
    with ((a - INT_MIN) mod UINT_MODULUS - 1) by lia.
  rewrite Zminus_mod_idemp_l. f_equal. lia.
Qed.

Lemma afterDeleteEvents_S (n : nat) (mep : MEP) :
  afterDeleteEvents (S n) mep = snd (deleteEvent (afterDeleteEvents n mep)).
Proof. reflexivity. Qed.

(** The counter after [n] calls, in closed form. *)
Lemma eventCount_afterDeleteEvents (n : nat) (mep : MEP) :
  eventCount_ (afterDeleteEvents (S n) mep)
  = to_int (eventCount_ mep - Z.of_nat (S n)).
Proof.
  induction n as [| n IH].
  - reflexivity.
  - rewrite afterDeleteEvents_S. unfold deleteEvent at 1. cbn [snd eventCount_].
    rewrite IH, to_int_pred. f_equal. lia.
Qed.

Lemma deleteEvent_result (mep : MEP) :
  fst (deleteEvent mep) = (to_int (eventCount_ mep - 1) =? 0).
Proof. reflexivity. Qed.

Lemma reportAll_countdown (callers : list nat) :
  forall mep : MEP,
    callers <> [] ->
    eventCount_ mep = Z.of_nat (length callers) ->
    Z.of_nat (length callers) <= INT_MAX ->
    map fst (fst (reportAll callers mep)) = callers /\
    map snd (fst (reportAll callers mep))
    = repeat false (length callers - 1) ++ [true] /\
    eventCount_ (snd (reportAll callers mep)) = 0.
Proof.
  induction callers as [| f fs IH]; intros mep Hne Hc Hmax; [congruence |].
  assert (Hc1 : to_int (eventCount_ mep - 1) = Z.of_nat (length fs)).
  { rewrite Hc, to_int_small.
    - cbn [length]. lia.
    - cbn [length] in *. unfold INT_MIN, INT_MAX in *. lia. }
  cbn [reportAll]. unfold deleteEvent. rewrite Hc1.
  set (mep1 := mkMEP _ _ _ _ _).
  destruct fs as [| g gs].
  - simpl. auto.
  - specialize (IH mep1). destruct (reportAll (g :: gs) mep1) as [rs mep2].
    destruct IH as (Hf & Hs & Hz); [discriminate | reflexivity | |].
    { cbn [length] in *. lia. }
    cbn [fst snd map] in *. rewrite Hf, Hs.
    replace (Z.of_nat (length (g :: gs)) =? 0) with false.
    + cbn [length]. rewrite !Nat.sub_succ, !Nat.sub_0_r. auto.
    + symmetry. apply Z.eqb_neq. cbn [length]. lia.
Qed.

(** C1.  A MEP whose completion counter holds [N >= 1], the header's
    [eventCount], receives one [deleteEvent] from each of its [N]
    fragments, in any order: the first [N - 1] calls return [false], the
    [N]-th returns [true], so exactly one call, the last one, sees the
    counter reach zero. *)
Theorem deleteEvent_last_call_true (mep : MEP) (N : nat) (order : list nat) :
  (1 <= N)%nat ->
  Z.of_nat N <= INT_MAX ->
  eventCount_ mep = Z.of_nat N ->
  Permutation order (seq 0 N) ->
  map fst (fst (reportAll order mep)) = order /\
  map snd (fst (reportAll order mep)) = repeat false (N - 1) ++ [true] /\
  count_occ bool_dec (map snd (fst (reportAll order mep))) true = 1%nat /\
  eventCount_ (snd (reportAll order mep)) = 0.
Proof.
  intros HN Hmax Hc Hperm.
  assert (Hlen : length order = N).
  { rewrite (Permutation_length Hperm). apply length_seq. }
  destruct (reportAll_countdown order mep) as (Hf & Hs & Hz).
  - intros ->. simpl in Hlen. lia.
  - now rewrite Hlen.
  - now rewrite Hlen.
  - rewrite Hlen in Hs. repeat split; try assumption.
    rewrite Hs, count_occ_app. cbn [count_occ].
    destruct (bool_dec true true) as [_ | Hn]; [| congruence].
    assert (H0 : forall k, count_occ bool_dec (repeat false k) true = 0%nat).
    { induction k as [| k IHk]; simpl; [reflexivity |].
      destruct (bool_dec false true); [discriminate | exact IHk]. }
    now rewrite H0.
Qed.

Lemma deleteEvent_last_call_true_witness :
  map snd (fst (reportAll [2; 0; 3; 1]%nat (mep_of_count 4)))
  = [false; false; false; true].
Proof.
  apply (deleteEvent_last_call_true (mep_of_count 4) 4 [2; 0; 3; 1]%nat).
  - lia.
  - vm_compute. discriminate.
  - reflexivity.
  - change (seq 0 4) with [0; 1; 2; 3]%nat.
    apply perm_trans with [0; 2; 3; 1]%nat; [apply perm_swap |].
    apply perm_skip.
    apply perm_trans with [2; 1; 3]%nat; [apply perm_skip, perm_swap |].
    apply perm_swap.
Defined.

(** After a call that returned [true] the counter is zero, and the [k]-th
    call after it leaves [to_int (- k)]. *)
Lemma eventCount_after_zero (mep : MEP) (k : nat) :
  fst (deleteEvent mep) = true ->
  eventCount_ (afterDeleteEvents (S k) (snd (deleteEvent mep)))
  = to_int (- Z.of_nat (S k)).
Proof.
  intros Ht. rewrite eventCount_afterDeleteEvents.
  rewrite deleteEvent_result in Ht. apply Z.eqb_eq in Ht.
  unfold deleteEvent. cbn [snd eventCount_]. rewrite Ht. f_equal.
Qed.

(** C8.  Once [deleteEvent] has returned [true], each later call on the
    same MEP returns [false] for as long as the counter has not gone once
    round the range of [int], that is for fewer than [2^32] later calls;
    during the first [2^31] of them the counter is negative, [- k] after
    the [k]-th. *)
Theorem deleteEvent_true_once (mep : MEP) (k : nat) :
  fst (deleteEvent mep) = true ->
  (1 <= k)%nat ->
  Z.of_nat k < 2 ^ 32 ->
  fst (deleteEvent (afterDeleteEvents (k - 1) (snd (deleteEvent mep))))
  = false
  /\
  (Z.of_nat k <= 2 ^ 31 ->
   eventCount_ (afterDeleteEvents k (snd (deleteEvent mep))) = - Z.of_nat k
   /\ eventCount_ (afterDeleteEvents k (snd (deleteEvent mep))) < 0).
Proof.
  intros Ht Hk Hlt.
  destruct k as [| k]; [lia |].
  pose proof (eventCount_after_zero mep k Ht) as Hc.
  split.
  - rewrite Nat.sub_succ, Nat.sub_0_r.
    rewrite afterDeleteEvents_S in Hc. unfold deleteEvent in Hc at 1.
    cbn [snd eventCount_] in Hc.
    rewrite deleteEvent_result, Hc.
    apply Z.eqb_neq. unfold to_int, INT_MIN, UINT_MODULUS.
    destruct (Z_le_gt_dec (Z.of_nat (S k)) (2 ^ 31)) as [Hle | Hgt].
    + rewrite Z.mod_small; lia.
    + replace (- Z.of_nat (S k) - - 2 ^ 31)
        with ((2 ^ 32 + 2 ^ 31 - Z.of_nat (S k)) + (-1) * 2 ^ 32) by lia.
      rewrite Z_mod_plus_full, Z.mod_small; lia.
  - intros Hle. rewrite Hc, to_int_small.
    + lia.
    + unfold INT_MIN, INT_MAX. lia.
Qed.

Lemma deleteEvent_true_once_witness :
  fst (deleteEvent (afterDeleteEvents 2 (snd (deleteEvent (mep_of_count 1)))))
  = false.
Proof.
  apply (deleteEvent_true_once (mep_of_count 1) 3).
  - reflexivity.
  - lia.
  - vm_compute. reflexivity.
Defined.

(** The limit of the previous statement: the counter is a 32-bit integer
    that wraps around, so the [2^32]-th call after the one that returned
    [true] finds it at 1 again. *)
Lemma deleteEvent_wraps (mep : MEP) :
  fst (deleteEvent mep) = true ->
  fst (deleteEvent
         (afterDeleteEvents (Z.to_nat (2 ^ 32 - 1)) (snd (deleteEvent mep))))
  = true.
Proof.
  intros Ht.
  replace (Z.to_nat (2 ^ 32 - 1)) with (S (Z.to_nat (2 ^ 32 - 2))) by lia.
  rewrite deleteEvent_result, eventCount_after_zero by exact Ht.
  rewrite to_int_pred. apply Z.eqb_eq.
  replace (- Z.of_nat (S (Z.to_nat (2 ^ 32 - 2))) - 1) with (- 2 ^ 32) by lia.
  reflexivity.
Qed.

End MEPCounterFacts.

(** ** The MEP: header, construction, fragments *)

Section MEPHeaderFacts.

Import l0.

Lemma load_uint8_range (m : memory) (p : Z) : 0 <= load_uint8 m p <= 255.
Proof.
  unfold load_uint8. pose proof (Byte.to_N_bounded (m p)). lia.
Qed.

Lemma load_uint16_range (m : memory) (p : Z) : 0 <= load_uint16 m p <= 65535.
Proof.
  unfold load_uint16.
  pose proof (load_uint8_range m p). pose proof (load_uint8_range m (p + 1)).
  lia.
Qed.

Lemma load_uint32_range (m : memory) (p : Z) : 0 <= load_uint32 m p < 2 ^ 32.
Proof.
  unfold load_uint32.
  pose proof (load_uint16_range m p).
  pose proof (load_uint16_range m (p + 2)). lia.
Qed.

Lemma sizeof_MEP_HDR_eq : sizeof_MEP_HDR = 8.
Proof. reflexivity. Qed.

(** C9.  Whatever the memory holds, every header accessor stays within
    the width of its field: [getFirstEventNum] below [2^24],
    [getSourceID], [getNumberOfFragments] and [getSourceSubID] at most 255,
    [getLength] at most 65535. *)
Theorem accessor_bounds (m : memory) (mep : MEP) :
  0 <= getFirstEventNum m mep < 2 ^ 24 /\
  0 <= getNumberOfFragments m mep <= 255 /\
  0 <= getSourceSubID m mep <= 255 /\
  0 <= getSourceID m mep <= 255 /\
  0 <= getLength m mep <= 65535.
Proof.
  unfold getFirstEventNum, getNumberOfFragments, getSourceSubID, getSourceID,
    getLength, MEP_HDR_firstEventNum, MEP_HDR_eventCount,
    MEP_HDR_sourceSubID, MEP_HDR_sourceID, MEP_HDR_mepLength.
  repeat split;
    try apply load_uint8_range; try apply load_uint16_range.
  - apply Z.land_nonneg. left. apply load_uint32_range.
  - rewrite Z.land_ones by lia. apply Z.mod_pos_bound. lia.
Qed.

Variable sourceIDToNum : Z -> option Z.

Lemma load_uint8_agree (m m' : memory) (p : Z) :
  m' p = m p -> load_uint8 m' p = load_uint8 m p.
Proof. unfold load_uint8. now intros ->. Qed.

(** The header fields read at [hdr] depend on the [sizeof(MEP_HDR)] bytes
    from [hdr] on, and on nothing else. *)
Lemma MEP_HDR_agree (m m' : memory) (hdr : Z) :
  (forall i, 0 <= i < sizeof_MEP_HDR -> m' (hdr + i) = m (hdr + i)) ->
  MEP_HDR_firstEventNum m' hdr = MEP_HDR_firstEventNum m hdr /\
  MEP_HDR_sourceID m' hdr = MEP_HDR_sourceID m hdr /\
  MEP_HDR_mepLength m' hdr = MEP_HDR_mepLength m hdr /\
  MEP_HDR_eventCount m' hdr = MEP_HDR_eventCount m hdr /\
  MEP_HDR_sourceSubID m' hdr = MEP_HDR_sourceSubID m hdr.
Proof.
  rewrite sizeof_MEP_HDR_eq. intros H.
  assert (Hb : forall i, 0 <= i < 8 ->
                         load_uint8 m' (hdr + i) = load_uint8 m (hdr + i)).
  { intros i Hi. apply load_uint8_agree. now apply H. }
  pose proof (Hb 0) as H0. rewrite Z.add_0_r in H0.
  pose proof (Hb 1) as H1. pose proof (Hb 2) as H2.
  pose proof (Hb 3) as H3. pose proof (Hb 4) as H4.
  pose proof (Hb 5) as H5. pose proof (Hb 6) as H6.
  pose proof (Hb 7) as H7.
  unfold MEP_HDR_firstEventNum, MEP_HDR_sourceID, MEP_HDR_mepLength,
    MEP_HDR_eventCount, MEP_HDR_sourceSubID, load_uint32, load_uint16.
  replace (hdr + 2 + 1) with (hdr + 3) by lia.
  replace (hdr + 4 + 1) with (hdr + 5) by lia.
  rewrite H0, H1, H2, H3, H4, H5, H6, H7 by lia.
  repeat split; reflexivity.
Qed.

Lemma new_MEP_inr (m : memory) (data dataLength originalData : Z)
  (mep : MEP) :
  new_MEP sourceIDToNum m data dataLength originalData = inr mep ->
  sizeof_MEP_HDR <= dataLength /\
  MEP_HDR_mepLength m data = dataLength /\
  sourceIDToNum (MEP_HDR_sourceID m data) <> None /\
  mep = mkMEP (MEP_HDR_eventCount m data) originalData data [] false.
Proof.
  unfold new_MEP.
  destruct (Z.ltb_spec dataLength sizeof_MEP_HDR); [discriminate |].
  destruct (Z.eqb_spec (MEP_HDR_mepLength m data) dataLength);
    simpl; [| discriminate].
  destruct (sourceIDToNum (MEP_HDR_sourceID m data)); [| discriminate].
  intros [= <-]. repeat split; auto. discriminate.
Qed.

(** C4, as the claim has it, fails: the MEP keeps the address of the
    header inside the received frame, not a copy of it.  After the frame of
    56 bytes has been accepted, one byte written into the frame changes
    what [getSourceID] returns. *)
Lemma header_is_not_copied :
  exists mep,
    new_MEP registry_5_2 received56 1000 56 958 = inr mep /\
    getSourceID received56 mep = 5 /\
    getSourceID (store_uint8 received56 1003 Byte.x09) mep = 9.
Proof. eexists. split; [reflexivity |]. split; reflexivity. Qed.

(** C4, amended.  After a successful construction [rawData_] is the
    address [data] of the header inside the received frame, and every
    header accessor reads the corresponding field of [MEP_HDR] at that
    address from the memory as it is when the accessor is called.  The
    results are the same in any two memories that agree on the
    [sizeof(MEP_HDR)] bytes of the header: they do not depend on the rest
    of the frame or on any other memory. *)
Theorem accessors_read_frame (m : memory) (data dataLength originalData : Z)
  (mep : MEP) :
  new_MEP sourceIDToNum m data dataLength originalData = inr mep ->
  rawData_ mep = data /\
  (forall m1,
     getSourceID m1 mep = MEP_HDR_sourceID m1 data /\
     getFirstEventNum m1 mep = MEP_HDR_firstEventNum m1 data /\
     getNumberOfFragments m1 mep = MEP_HDR_eventCount m1 data /\
     getLength m1 mep = MEP_HDR_mepLength m1 data /\
     getSourceSubID m1 mep = MEP_HDR_sourceSubID m1 data) /\
  (forall m1 m2,
     (forall i, 0 <= i < sizeof_MEP_HDR -> m2 (data + i) = m1 (data + i)) ->
     getSourceID m2 mep = getSourceID m1 mep /\
     getFirstEventNum m2 mep = getFirstEventNum m1 mep /\
     getNumberOfFragments m2 mep = getNumberOfFragments m1 mep /\
     getLength m2 mep = getLength m1 mep /\
     getSourceSubID m2 mep = getSourceSubID m1 mep).
Proof.
  intros Hnew. apply new_MEP_inr in Hnew. destruct Hnew as (_ & _ & _ & ->).
  split; [reflexivity |]. split.
  - intros m1. repeat split; reflexivity.
  - intros m1 m2 Hagree.
    destruct (MEP_HDR_agree m1 m2 data Hagree) as (Hf & Hs & Hl & He & Hb).
    unfold getSourceID, getFirstEventNum, getNumberOfFragments, getLength,
      getSourceSubID. cbn [rawData_]. auto.
Qed.

End MEPHeaderFacts.

Section MEPExamples.

Import l0.

Lemma accessors_read_frame_witness :
  getSourceID received56 (mkMEP 2 958 1000 [] false)
  = MEP_HDR_sourceID received56 1000.
Proof.
  assert (Hnew : new_MEP registry_5_2 received56 1000 56 958
                 = inr (mkMEP 2 958 1000 [] false)) by reflexivity.
  destruct (accessors_read_frame registry_5_2 received56 1000 56 958
              (mkMEP 2 958 1000 [] false) Hnew) as (_ & Hread & _).
  apply Hread.
Defined.

End MEPExamples.

Section MEPConstructionFacts.

Import l0.

Variable sourceIDToNum : Z -> option Z.

(** C5.  Construction fails with [BrokenPacketReceivedError] whenever the
    received length is below [sizeof(MEP_HDR)] or differs from the header's
    [mepLength]; with a frame that passes these two checks it fails with
    [UnknownSourceIDFound] whenever the registry does not map the header's
    [sourceID], whatever the other fields hold; an unmapped [sourceID]
    never yields a MEP; and a construction that succeeds has met none of
    the three conditions. *)
Theorem new_MEP_failures (m : memory) (data dataLength originalData : Z) :
  (dataLength < sizeof_MEP_HDR \/ MEP_HDR_mepLength m data <> dataLength ->
   new_MEP sourceIDToNum m data dataLength originalData
   = inl BrokenPacketReceivedError)
  /\
  (sizeof_MEP_HDR <= dataLength ->
   MEP_HDR_mepLength m data = dataLength ->
   sourceIDToNum (MEP_HDR_sourceID m data) = None ->
   new_MEP sourceIDToNum m data dataLength originalData
   = inl UnknownSourceIDFound)
  /\
  (sourceIDToNum (MEP_HDR_sourceID m data) = None ->
   exists e, new_MEP sourceIDToNum m data dataLength originalData = inl e)
  /\
  (forall mep,
     new_MEP sourceIDToNum m data dataLength originalData = inr mep ->
     sizeof_MEP_HDR <= dataLength /\
     MEP_HDR_mepLength m data = dataLength /\
     sourceIDToNum (MEP_HDR_sourceID m data) <> None).
Proof.
  split; [| split; [| split]].
  - intros H. unfold new_MEP.
    destruct (Z.ltb_spec dataLength sizeof_MEP_HDR) as [_ | Hlong];
      [reflexivity |].
    destruct (Z.eqb_spec (MEP_HDR_mepLength m data) dataLength) as [E | _];
      [| reflexivity].
    destruct H as [H | H]; [lia | contradiction].
  - intros Hlong Hlen Hreg. unfold new_MEP.
    destruct (Z.ltb_spec dataLength sizeof_MEP_HDR) as [Hshort | _]; [lia |].
    destruct (Z.eqb_spec (MEP_HDR_mepLength m data) dataLength) as [_ | N];
      [| contradiction].
    cbn [negb]. now rewrite Hreg.
  - intros Hreg. unfold new_MEP. rewrite Hreg.
    destruct (dataLength <? sizeof_MEP_HDR); [eexists; reflexivity |].
    destruct (negb _); eexists; reflexivity.
  - intros mep Hnew. apply new_MEP_inr in Hnew. tauto.
Qed.

End MEPConstructionFacts.

Section MEPFragmentFacts.

Import l0.

Variable sourceIDToNum : Z -> option Z.
Variable getDataWithHeaderLength : memory -> Z -> Z.

(** C6, as the claim has it, fails.  [MEP_HDR] is packed into 8 bytes,
    not 16, so a header followed by records of 20 and 28 bytes ends at
    byte 56 of the frame of 64 bytes.  The frame is accepted by the
    constructor, and [initializeMEPFragments] rejects it: the fragments do
    not add up to [mepLength]. *)
Lemma example_frame_64_rejected :
  sizeof_MEP_HDR + 20 + 28 = 56 /\
  length frame64_short = 64%nat /\
  MEP_HDR_mepLength received64_short 1000 = 64 /\
  MEP_HDR_eventCount received64_short 1000 = 2 /\
  length_prefixed received64_short (1000 + sizeof_MEP_HDR) = 20 /\
  length_prefixed received64_short (1000 + sizeof_MEP_HDR + 20) = 28 /\
  exists mep,
    new_MEP registry_5_2 received64_short 1000 64 958 = inr mep /\
    getSourceIDNum registry_5_2 received64_short mep = Some 2 /\
    initializeMEPFragments length_prefixed received64_short 1000 64 mep
    = inl BrokenPacketReceivedError.
Proof.
  repeat split; try reflexivity.
  eexists. repeat split; reflexivity.
Qed.

(** C6, amended.  The header is 8 bytes long.  For the header
    [{firstEventNum = 1000, sourceID = 5, mepLength = 64, eventCount = 2,
    sourceSubID = 0}], a registry that maps 5 to 2, and a frame of 64
    bytes whose payload holds a record of 20 bytes followed by a record of
    36 bytes (8 + 20 + 36 = 64), the construction and
    [initializeMEPFragments] succeed, [getSourceIDNum] returns 2, and
    exactly two fragments are produced, on the byte ranges of the two
    records. *)
Theorem example_frame_parses (m : memory) (data originalData : Z) :
  sourceIDToNum 5 = Some 2 ->
  MEP_HDR_firstEventNum m data = 1000 ->
  MEP_HDR_sourceID m data = 5 ->
  MEP_HDR_mepLength m data = 64 ->
  MEP_HDR_eventCount m data = 2 ->
  MEP_HDR_sourceSubID m data = 0 ->
  getDataWithHeaderLength m (data + 8) = 20 ->
  getDataWithHeaderLength m (data + 28) = 36 ->
  exists mep mep',
    new_MEP sourceIDToNum m data 64 originalData = inr mep /\
    initializeMEPFragments getDataWithHeaderLength m data 64 mep = inr mep' /\
    getSourceIDNum sourceIDToNum m mep' = Some 2 /\
    fragments_ mep'
    = [mkMEPFragment (data + 8) 20; mkMEPFragment (data + 28) 36] /\
    length (fragments_ mep') = 2%nat /\
    sizeof_MEP_HDR + 20 + 36 = 64.
Proof.
  intros Hreg _ Hsrc Hlen Hcount _ Hf1 Hf2.
  eexists. eexists. split; [| split].
  - unfold new_MEP. rewrite Hlen, Hsrc, Hreg. reflexivity.
  - unfold initializeMEPFragments, getNumberOfFragments, getLength.
    cbn [rawData_].
    rewrite Hcount, Hlen, sizeof_MEP_HDR_eq.
    change (Z.to_nat 2) with 2%nat. cbn [sliceFragments].
    rewrite Hf1. change (8 + 20) with 28. rewrite Hf2.
    reflexivity.
  - cbn [fragments_]. unfold getSourceIDNum, getSourceID. cbn [rawData_].
    rewrite Hsrc, Hreg. repeat split.
Qed.

End MEPFragmentFacts.

Section MEPConstructionExamples.

Import l0.

(** The frame of 56 bytes, offered with a received length of 60, and
    offered to a registry that does not know its source. *)
Lemma new_MEP_failures_witness :
  new_MEP registry_5_2 received56 1000 60 958 = inl BrokenPacketReceivedError
  /\
  new_MEP registry_empty received56 1000 56 958 = inl UnknownSourceIDFound.
Proof.
  split.
  - apply (proj1 (new_MEP_failures registry_5_2 received56 1000 60 958)).
    right. vm_compute. discriminate.
  - apply (proj1 (proj2 (new_MEP_failures registry_empty received56
                           1000 56 958))).
    + vm_compute. discriminate.
    + reflexivity.
    + reflexivity.
Defined.

Lemma example_frame_parses_witness :
  exists mep mep',
    new_MEP registry_5_2 received64 1000 64 958 = inr mep /\
    initializeMEPFragments length_prefixed received64 1000 64 mep
    = inr mep' /\
    getSourceIDNum registry_5_2 received64 mep' = Some 2 /\
    fragments_ mep' = [mkMEPFragment 1008 20; mkMEPFragment 1028 36] /\
    length (fragments_ mep') = 2%nat /\
    sizeof_MEP_HDR + 20 + 36 = 64.
Proof.
  apply (example_frame_parses registry_5_2 length_prefixed received64
           1000 958); reflexivity.
Defined.

End MEPConstructionExamples.

(** ** The burst identifier handler: sequences of calls *)

Section BurstIdHandlerRuns.

Import BurstIdHandler.

Lemma checkBurstIdChange_in_burst (now : Z) (s : statics) :
  isInBurst s = true -> checkBurstIdChange now s = s.
Proof.
  unfold isInBurst, checkBurstIdChange. now intros ->.
Qed.

Lemma checkBurstFinished_in_burst (s : statics) :
  isInBurst s = true -> checkBurstFinished s = (s, []).
Proof.
  unfold checkBurstFinished. now intros ->.
Qed.


(** X1.  [initialize] puts the handler in burst on the given id, reduced
    to a [uint]: both getters return it, and neither
    [checkBurstIdChange], at any time, nor [checkBurstFinished] does
    anything afterwards.  It neither restarts the timer nor resets
    [lastFinishedBurst_]. *)
Theorem initialize_in_burst (startBurstID : Z) (s : statics) :
  let s' := initialize startBurstID s in
  getCurrentBurstId s' = startBurstID mod 2 ^ 32 /\
  getNextBurstId s' = startBurstID mod 2 ^ 32 /\
  isInBurst s' = true /\
  (forall now, checkBurstIdChange now s' = s') /\
  checkBurstFinished s' = (s', []) /\
  EOBReceivedTimer_ s' = EOBReceivedTimer_ s /\
  lastFinishedBurst_ s' = lastFinishedBurst_ s.
Proof.
  assert (Hin : isInBurst (initialize startBurstID s) = true).
  { unfold isInBurst, initialize. simpl. apply Z.eqb_refl. }
  cbv zeta. repeat split; try reflexivity; try exact Hin.
  - intros now. now apply checkBurstIdChange_in_burst.
  - now apply checkBurstFinished_in_burst.
Qed.

(** X2.  An announcement restarts the debounce.  After
    [setNextBurstID] at the reading [t], a [checkBurstIdChange] at the
    reading [now] makes the announced id current exactly when more than one
    second lies between [t] and [now]; what the timer held before the
    announcement plays no part. *)
Theorem setNextBurstID_then_checkBurstIdChange (t now id : Z) (s : statics) :
  currentBurstID_ (checkBurstIdChange now (fst (setNextBurstID t id s)))
  = if second_ns <? now - t then id mod 2 ^ 32 else currentBurstID_ s.
Proof.
  unfold checkBurstIdChange. rewrite debounce_elapsed_ns.
  unfold setNextBurstID, getTimeSinceLastEOB. cbn [fst nextBurstId_
    currentBurstID_ EOBReceivedTimer_].
  change (id mod 2 ^ 32) with (to_uint id).
  destruct (Z.eqb_spec (to_uint id) (currentBurstID_ s)) as [E | N];
    destruct (second_ns <? now - t); simpl; congruence.
Qed.

Lemma run_in_burst (s : statics) (cs : list call) :
  isInBurst s = true ->
  Forall (fun c => is_announce c = false) cs ->
  run cs s = (s, []).
Proof.
  intros Hin Hcs. induction Hcs as [| c cs Hc _ IH]; [reflexivity |].
  destruct c as [t id | now |]; [discriminate | |]; cbn [run step].
  - rewrite (checkBurstIdChange_in_burst now s Hin), IH. reflexivity.
  - rewrite (checkBurstFinished_in_burst s Hin), IH. reflexivity.
Qed.

(** X3.  In a burst only an announcement changes anything: from a state
    with [nextBurstId_ = currentBurstID_], any sequence of
    [checkBurstIdChange] and [checkBurstFinished] calls, at any times,
    leaves the state as it is and calls nothing. *)
Theorem in_burst_quiescent (s : statics) (cs : list call) :
  isInBurst s = true ->
  Forall (fun c => is_announce c = false) cs ->
  run cs s = (s, []) /\
  getCurrentBurstId (fst (run cs s)) = getNextBurstId s.
Proof.
  intros Hin Hcs. rewrite (run_in_burst s cs Hin Hcs). split; [reflexivity |].
  unfold isInBurst in Hin. apply Z.eqb_eq in Hin.
  unfold getCurrentBurstId, getNextBurstId. now rewrite Hin.
Qed.

Lemma in_burst_quiescent_witness :
  run polling_calls (mkStatics 0 7 7 6 false) = (mkStatics 0 7 7 6 false, []).
Proof.
  apply in_burst_quiescent.
  - reflexivity.
  - unfold polling_calls. repeat constructor.
Defined.

(** X4.  A promotion that comes before the end of the burst was reported
    loses the report.  When more than one second has elapsed,
    [checkBurstIdChange] makes [nextBurstId_] current whatever
    [lastFinishedBurst_] holds, and until the next announcement no call
    changes the state again or calls [onBurstFinished]. *)
Theorem promotion_silences_finished (now : Z) (s : statics)
  (cs : list call) :
  second_ns < getTimeSinceLastEOB now s ->
  Forall (fun c => is_announce c = false) cs ->
  run (CheckBurstIdChange now :: cs) s
  = ( mkStatics (EOBReceivedTimer_ s) (nextBurstId_ s) (nextBurstId_ s)
        (lastFinishedBurst_ s) (burstFinishedMutex_ s),
      [] ).
Proof.
  intros Hel Hcs. cbn [run step].
  assert (Hs : checkBurstIdChange now s
               = mkStatics (EOBReceivedTimer_ s) (nextBurstId_ s)
                   (nextBurstId_ s) (lastFinishedBurst_ s)
                   (burstFinishedMutex_ s)).
  { unfold checkBurstIdChange. rewrite debounce_elapsed_ns.
    apply Z.ltb_lt in Hel. rewrite Hel.
    destruct (Z.eqb_spec (nextBurstId_ s) (currentBurstID_ s)) as [E | N];
      simpl; [| reflexivity].
    destruct s; simpl in *. now subst. }
  rewrite Hs, run_in_burst; [reflexivity | | exact Hcs].
  unfold isInBurst. simpl. apply Z.eqb_refl.
Qed.

Lemma promotion_silences_finished_witness :
  run (CheckBurstIdChange (2 * second_ns) :: polling_calls)
      (mkStatics 0 8 7 6 false)
  = (mkStatics 0 8 8 6 false, []).
Proof.
  apply (promotion_silences_finished (2 * second_ns)
           (mkStatics 0 8 7 6 false) polling_calls).
  - vm_compute. reflexivity.
  - unfold polling_calls. repeat constructor.
Defined.

(** X5.  While the mutex is held elsewhere, no sequence of calls ever
    calls [onBurstFinished] or writes [lastFinishedBurst_], and none of the
    calls releases the mutex. *)
Theorem mutex_held_no_notification (s : statics) (cs : list call) :
  burstFinishedMutex_ s = true ->
  finished (snd (run cs s)) = [] /\
  lastFinishedBurst_ (fst (run cs s)) = lastFinishedBurst_ s /\
  burstFinishedMutex_ (fst (run cs s)) = true.
Proof.
  revert s. induction cs as [| c cs IH]; intros s Hm; [simpl; auto |].
  destruct c as [t id | now |]; cbn [run step].
  - specialize (IH (fst (setNextBurstID t id s)) Hm).
    unfold setNextBurstID in *. cbn [fst] in IH.
    destruct (run cs _) as [s2 e2]. exact IH.
  - assert (Hs : burstFinishedMutex_ (checkBurstIdChange now s) = true
                 /\ lastFinishedBurst_ (checkBurstIdChange now s)
                    = lastFinishedBurst_ s).
    { unfold checkBurstIdChange. destruct (negb _ && _); simpl; auto. }
    destruct Hs as [Hm' Hl]. specialize (IH _ Hm').
    destruct (run cs _) as [s2 e2]. rewrite <- Hl. exact IH.
  - destruct (checkBurstFinished_cases s) as [[E _] | [_ (_ & _ & Hf)]];
      [| congruence].
    rewrite E. specialize (IH s Hm). destruct (run cs s) as [s2 e2].
    exact IH.
Qed.

Lemma mutex_held_no_notification_witness :
  finished (snd (run reused_id_calls (mkStatics 0 1 1 0 true))) = [].
Proof.
  apply (mutex_held_no_notification (mkStatics 0 1 1 0 true)
           reused_id_calls).
  reflexivity.
Defined.

(** X6.  After any sequence of calls the timer holds the reading of the
    last [setNextBurstID] and [nextBurstId_] the id it announced, reduced
    to a [uint]; without an announcement both are as before.  Polling in
    between never touches them, and the mutex is left as it was found. *)
Theorem run_last_announcement (cs : list call) (s : statics) :
  EOBReceivedTimer_ (fst (run cs s))
  = fst (last_announce (EOBReceivedTimer_ s, nextBurstId_ s) cs) /\
  nextBurstId_ (fst (run cs s))
  = match announced cs with
    | [] => nextBurstId_ s
    | _ :: _ =>
        snd (last_announce (EOBReceivedTimer_ s, nextBurstId_ s) cs)
        mod 2 ^ 32
    end /\
  burstFinishedMutex_ (fst (run cs s)) = burstFinishedMutex_ s.
Proof.
  assert (Hgen : forall cs s d,
             EOBReceivedTimer_ (fst (run cs s))
             = fst (last_announce (EOBReceivedTimer_ s, d) cs) /\
             nextBurstId_ (fst (run cs s))
             = match announced cs with
               | [] => nextBurstId_ s
               | _ :: _ =>
                   snd (last_announce (EOBReceivedTimer_ s, d) cs) mod 2 ^ 32
               end /\
             burstFinishedMutex_ (fst (run cs s)) = burstFinishedMutex_ s).
  { clear cs s. induction cs as [| c cs IH]; intros s d; [simpl; auto |].
    destruct c as [t id | now |]; cbn [run step announced last_announce].
    - specialize (IH (fst (setNextBurstID t id s)) id).
      unfold setNextBurstID in *. cbn [fst] in IH.
      destruct (run cs _) as [s2 e2]. cbn [fst] in *.
      cbn [EOBReceivedTimer_ nextBurstId_ burstFinishedMutex_] in IH.
      destruct IH as (Ht & Hn & Hm). repeat split; try assumption.
      rewrite Hn. destruct (announced cs) eqn:Ha; [| reflexivity].
      assert (Hl : forall cs' d', announced cs' = [] ->
                                  last_announce d' cs' = d').
      { induction cs' as [| c' cs' IH']; intros d' Hc'; [reflexivity |].
        destruct c'; simpl in *; [discriminate | auto | auto]. }
      rewrite (Hl cs _ Ha). reflexivity.
    - specialize (IH (checkBurstIdChange now s) d).
      destruct (run cs _) as [s2 e2]. cbn [fst] in *.
      assert (Hs : EOBReceivedTimer_ (checkBurstIdChange now s)
                   = EOBReceivedTimer_ s
                   /\ nextBurstId_ (checkBurstIdChange now s)
                      = nextBurstId_ s
                   /\ burstFinishedMutex_ (checkBurstIdChange now s)
                      = burstFinishedMutex_ s).
      { unfold checkBurstIdChange. destruct (negb _ && _); simpl; auto. }
      destruct Hs as (Ht & Hn & Hm). rewrite Ht, Hn, Hm in IH. exact IH.
    - destruct (checkBurstFinished_cases s) as [[E _] | [E _]]; rewrite E.
      + specialize (IH s d). destruct (run cs s) as [s2 e2]. exact IH.
      + set (s1 := mkStatics _ _ _ _ _). specialize (IH s1 d).
        destruct (run cs s1) as [s2 e2]. exact IH. }
  apply Hgen.
Qed.

(** X7.  Between two promotions at most one notification is made.  A
    sequence of calls without [checkBurstIdChange] calls [onBurstFinished]
    at most once, for the id that is current throughout, from any state
    and whatever ids are announced, in whatever order. *)
Theorem unpromoted_run_notifies_once (s : statics) (cs : list call) :
  Forall (fun c => is_promotion c = false) cs ->
  (length (finished (snd (run cs s))) <= 1)%nat /\
  (forall b, In b (finished (snd (run cs s))) -> b = currentBurstID_ s) /\
  currentBurstID_ (fst (run cs s)) = currentBurstID_ s.
Proof.
  intros Hcs.
  assert (Hsettled : forall cs s,
             Forall (fun c => is_promotion c = false) cs ->
             lastFinishedBurst_ s = currentBurstID_ s ->
             finished (snd (run cs s)) = [] /\
             currentBurstID_ (fst (run cs s)) = currentBurstID_ s).
  { clear cs s Hcs. intros cs s Hcs. revert s.
    induction Hcs as [| c cs Hc _ IH]; intros s Hl; [simpl; auto |].
    destruct c as [t id | now |]; [| discriminate |]; cbn [run step].
    - specialize (IH (fst (setNextBurstID t id s)) Hl).
      unfold setNextBurstID in *. cbn [fst] in IH.
      destruct (run cs _) as [s2 e2]. exact IH.
    - destruct (checkBurstFinished_cases s) as [[E _] | [_ (_ & Hn & _)]];
        [| contradiction].
      rewrite E. specialize (IH s Hl). destruct (run cs s) as [s2 e2].
      exact IH. }
  revert s. induction Hcs as [| c cs Hc Hcs IH]; intros s.
  - simpl. repeat split; [lia | contradiction].
  - destruct c as [t id | now |]; [| discriminate |]; cbn [run step].
    + specialize (IH (fst (setNextBurstID t id s))).
      unfold setNextBurstID in *. cbn [fst] in IH.
      destruct (run cs _) as [s2 e2]. exact IH.
    + destruct (checkBurstFinished_cases s) as [[E _] | [E _]]; rewrite E.
      * specialize (IH s). destruct (run cs s) as [s2 e2]. exact IH.
      * set (s1 := mkStatics _ _ _ _ _).
        destruct (Hsettled cs s1 Hcs eq_refl) as [Hf Hc1].
        destruct (run cs s1) as [s2 e2]. cbn [fst snd app finished] in *.
        rewrite Hf. unfold s1 in Hc1. cbn [currentBurstID_] in Hc1.
        repeat split; [simpl; lia | | exact Hc1].
        intros b [Hb | []]. now symmetry.
Qed.

Lemma unpromoted_run_notifies_once_witness :
  (length (finished (snd (run unpromoted_calls (mkStatics 0 7 7 6 false))))
   <= 1)%nat.
Proof.
  apply (unpromoted_run_notifies_once (mkStatics 0 7 7 6 false)
           unpromoted_calls).
  unfold unpromoted_calls. repeat constructor.
Defined.

(** X8.  The handler makes up no burst id.  After any sequence of calls,
    [currentBurstID_] and every id for which [onBurstFinished] was called
    is the [currentBurstID_] or the [nextBurstId_] of the start, or one of
    the announced ids, reduced to a [uint]. *)
Theorem run_ids_provenance (cs : list call) (s : statics) (b : Z) :
  b = currentBurstID_ (fst (run cs s)) \/ In b (finished (snd (run cs s))) ->
  b = currentBurstID_ s \/ b = nextBurstId_ s \/
  In b (map to_uint (announced cs)).
Proof.
  revert s. induction cs as [| c cs IH]; intros s.
  - simpl. intros [H | []]. auto.
  - destruct c as [t id | now |]; cbn [run step announced map].
    + specialize (IH (fst (setNextBurstID t id s))).
      unfold setNextBurstID in *. cbn [fst] in IH.
      destruct (run cs _) as [s2 e2]. cbn [fst snd app finished] in *.
      cbn [currentBurstID_ nextBurstId_] in IH.
      intros H. destruct (IH H) as [H1 | [H1 | H1]]; simpl; auto.
    + specialize (IH (checkBurstIdChange now s)).
      destruct (run cs _) as [s2 e2]. cbn [fst snd app] in *.
      destruct (checkBurstIdChange_fields now s) as (_ & Hn & Hc).
      rewrite Hn in IH. intros H.
      destruct (IH H) as [H1 | [H1 | H1]]; auto.
      destruct Hc as [Hc | Hc]; rewrite Hc in H1; auto.
    + destruct (checkBurstFinished_cases s) as [[E _] | [E _]]; rewrite E.
      * specialize (IH s). destruct (run cs s) as [s2 e2]. exact IH.
      * set (s1 := mkStatics _ _ _ _ _). specialize (IH s1).
        destruct (run cs s1) as [s2 e2]. cbn [fst snd app finished] in *.
        unfold s1 in IH. cbn [currentBurstID_ nextBurstId_] in IH.
        intros [H | [H | H]]; auto.
Qed.

Lemma run_ids_provenance_witness :
  2 = currentBurstID_ (initialize 1 (static_init 0)) \/
  2 = nextBurstId_ (initialize 1 (static_init 0)) \/
  In 2 (map to_uint (announced reused_id_calls)).
Proof.
  apply (run_ids_provenance reused_id_calls (initialize 1 (static_init 0)) 2).
  right. vm_compute. auto.
Defined.







(** X11.  A complete change of burst.  With [c] current, the end of [c]
    not yet reported and the mutex free, the announcement of another id,
    one [checkBurstFinished] and one [checkBurstIdChange] more than a
    second after the announcement report the end of [c] once and leave the
    handler in burst on the new id, with [c] as the last finished burst. *)
Theorem burst_change_cycle (s : statics) (t0 t1 id : Z) :
  lastFinishedBurst_ s <> currentBurstID_ s ->
  burstFinishedMutex_ s = false ->
  0 <= id < 2 ^ 32 ->
  id <> currentBurstID_ s ->
  second_ns < t1 - t0 ->
  run [SetNextBurstID t0 id; CheckBurstFinished; CheckBurstIdChange t1] s
  = ( mkStatics t0 id id (currentBurstID_ s) false,
      [LOG_INFO id; sleep 2; onBurstFinished (currentBurstID_ s)] ).
Proof.
  intros Hlast Hm Hid Hne Hel.
  cbn [run step]. unfold setNextBurstID. rewrite (to_uint_small id Hid).
  set (s1 := mkStatics _ _ _ _ _).
  destruct (checkBurstFinished_cases s1)
    as [[_ [H | [H | H]]] | [E _]]; unfold s1 in *; simpl in *;
    try congruence.
  rewrite E. cbn [app].
  unfold checkBurstIdChange. rewrite debounce_elapsed_ns.
  unfold getTimeSinceLastEOB. cbn [nextBurstId_ currentBurstID_
    EOBReceivedTimer_ lastFinishedBurst_ burstFinishedMutex_].
  apply Z.ltb_lt in Hel. rewrite Hel.
  destruct (Z.eqb_spec id (currentBurstID_ s)); [contradiction |].
  rewrite Hm. reflexivity.
Qed.

Lemma burst_change_cycle_witness :
  run [SetNextBurstID 0 8; CheckBurstFinished;
       CheckBurstIdChange (2 * second_ns)] (mkStatics 0 7 7 6 false)
  = (mkStatics 0 8 8 7 false, [LOG_INFO 8; sleep 2; onBurstFinished 7]).
Proof.
  apply (burst_change_cycle (mkStatics 0 7 7 6 false) 0 (2 * second_ns) 8).
  - simpl. discriminate.
  - reflexivity.
  - lia.
  - simpl. discriminate.
  - vm_compute. reflexivity.
Defined.

End BurstIdHandlerRuns.

(** ** The MEP: more on the completion counter *)

Section MEPCounterMore.

Import l0.

Lemma to_int_zero_iff (z : Z) : to_int z = 0 <-> z mod 2 ^ 32 = 0.
Proof.
  unfold to_int, INT_MIN, UINT_MODULUS.
  change (2 ^ 32) with 4294967296. change (2 ^ 31) with 2147483648.
  Z.div_mod_to_equations. lia.
Qed.

Lemma to_int_idempotent (z : Z) : to_int (to_int z) = to_int z.
Proof. apply to_int_small, to_int_range. Qed.

(** What the call after [k] earlier calls returns. *)
Lemma deleteEvent_after_result (mep : MEP) (k : nat) :
  fst (deleteEvent (afterDeleteEvents k mep))
  = (to_int (eventCount_ mep - Z.of_nat (S k)) =? 0).
Proof.
  rewrite deleteEvent_result. destruct k as [| k].
  - reflexivity.
  - rewrite eventCount_afterDeleteEvents, to_int_pred. do 2 f_equal. lia.
Qed.

Lemma afterDeleteEvents_members (n : nat) (mep : MEP) :
  etherFrame_ (afterDeleteEvents n mep) = etherFrame_ mep /\
  rawData_ (afterDeleteEvents n mep) = rawData_ mep /\
  fragments_ (afterDeleteEvents n mep) = fragments_ mep /\
  checkSumsVarified_ (afterDeleteEvents n mep) = checkSumsVarified_ mep.
Proof.
  induction n as [| n IH]; [auto |].
  rewrite afterDeleteEvents_S. unfold deleteEvent. cbn [snd etherFrame_
    rawData_ fragments_ checkSumsVarified_]. exact IH.
Qed.

Lemma count_occ_repeat_false (n : nat) :
  count_occ bool_dec (repeat false n) true = 0%nat.
Proof.
  induction n as [| n IH]; simpl; [reflexivity |].
  destruct (bool_dec false true); [discriminate | exact IH].
Qed.

(** X12.  The calls that return [true] are those whose number is congruent
    to the counter modulo [2^32]: with the counter at [c], the call number
    [k + 1] returns [true] exactly when [c - (k + 1)] is a multiple of
    [2^32], and leaves the counter at [c - (k + 1)] wrapped into [int]. *)
Theorem deleteEvent_true_iff (mep : MEP) (k : nat) :
  (fst (deleteEvent (afterDeleteEvents k mep)) = true <->
   (eventCount_ mep - Z.of_nat (S k)) mod 2 ^ 32 = 0) /\
  eventCount_ (afterDeleteEvents (S k) mep)
  = to_int (eventCount_ mep - Z.of_nat (S k)).
Proof.
  split; [| apply eventCount_afterDeleteEvents].
  rewrite deleteEvent_after_result, Z.eqb_eq. apply to_int_zero_iff.
Qed.

(** X13.  A MEP without fragments is never reported complete: with the
    counter at 0, as for a header with [eventCount = 0], every one of the
    first [2^32 - 1] calls returns [false]. *)
Theorem deleteEvent_empty_MEP (mep : MEP) (k : nat) :
  eventCount_ mep = 0 ->
  Z.of_nat k < 2 ^ 32 - 1 ->
  fst (deleteEvent (afterDeleteEvents k mep)) = false.
Proof.
  intros Hc Hk. rewrite deleteEvent_after_result, Hc.
  apply Z.eqb_neq. rewrite to_int_zero_iff.
  change (2 ^ 32) with 4294967296 in *.
  Z.div_mod_to_equations. lia.
Qed.

Lemma deleteEvent_empty_MEP_witness :
  fst (deleteEvent (afterDeleteEvents 5 (mep_of_count 0))) = false.
Proof.
  apply deleteEvent_empty_MEP.
  - reflexivity.
  - vm_compute. reflexivity.
Defined.

(** X14.  [deleteEvent] writes the counter and nothing else: after any
    number of calls the MEP still refers to the same frame, header and
    fragments, so every other member function returns what it returned
    before. *)
Theorem deleteEvent_keeps_accessors (n : nat) (mep : MEP) (m : memory)
  (i : nat) :
  let mep' := afterDeleteEvents n mep in
  getRawData mep' = getRawData mep /\
  getUDPPack mep' = getUDPPack mep /\
  getFragment mep' i = getFragment mep i /\
  getSourceID m mep' = getSourceID m mep /\
  getFirstEventNum m mep' = getFirstEventNum m mep /\
  getNumberOfFragments m mep' = getNumberOfFragments m mep /\
  getLength m mep' = getLength m mep /\
  getSourceSubID m mep' = getSourceSubID m mep.
Proof.
  destruct (afterDeleteEvents_members n mep) as (He & Hr & Hf & _).
  cbv zeta.
  unfold getRawData, getUDPPack, getFragment, getSourceID, getFirstEventNum,
    getNumberOfFragments, getLength, getSourceSubID.
  rewrite He, Hr, Hf. repeat split.
Qed.

(** X15.  One call lowers the counter by exactly one, except at
    [INT_MIN], where it wraps around to [INT_MAX]; the counter never
    leaves the range of [int]. *)
Theorem deleteEvent_decrements (mep : MEP) :
  INT_MIN <= eventCount_ mep <= INT_MAX ->
  eventCount_ (snd (deleteEvent mep))
  = (if eventCount_ mep =? INT_MIN then INT_MAX else eventCount_ mep - 1)
  /\ INT_MIN <= eventCount_ (snd (deleteEvent mep)) <= INT_MAX.
Proof.
  intros Hr. unfold deleteEvent. cbn [snd eventCount_].
  split; [| apply to_int_range].
  destruct (Z.eqb_spec (eventCount_ mep) INT_MIN) as [E | N].
  - rewrite E. reflexivity.
  - apply to_int_small. lia.
Qed.

Lemma deleteEvent_decrements_witness :
  eventCount_ (snd (deleteEvent (mep_of_count INT_MIN))) = INT_MAX.
Proof.
  apply (deleteEvent_decrements (mep_of_count INT_MIN)).
  vm_compute. split; discriminate.
Defined.

Lemma reportAll_all_false (callers : list nat) :
  forall (mep : MEP) (u : Z),
    to_int (eventCount_ mep) = to_int u ->
    - (2 ^ 32 - 1) + Z.of_nat (length callers) <= u <= 0 ->
    map snd (fst (reportAll callers mep)) = repeat false (length callers).
Proof.
  induction callers as [| f fs IH]; intros mep u Hu Hr; [reflexivity |].
  cbn [reportAll]. unfold deleteEvent.
  set (mep1 := mkMEP _ _ _ _ _).
  assert (H1 : to_int (eventCount_ mep - 1) = to_int (u - 1)).
  { rewrite <- to_int_pred, Hu, to_int_pred. reflexivity. }
  specialize (IH mep1 (u - 1)).
  destruct (reportAll fs mep1) as [rs mep2]. cbn [fst snd map length repeat].
  cbn [fst] in IH. rewrite IH.
  - f_equal. apply Z.eqb_neq. rewrite H1, to_int_zero_iff.
    cbn [length] in Hr. change (2 ^ 32) with 4294967296 in *.
    Z.div_mod_to_equations. lia.
  - unfold mep1. cbn [eventCount_]. now rewrite to_int_idempotent.
  - cbn [length] in Hr. lia.
Qed.

(** X16.  Whatever the counter holds, at most one of up to [2^32]
    successive calls returns [true]: no two callers are told to delete the
    same MEP. *)
Theorem reportAll_at_most_one_true (callers : list nat) (mep : MEP) :
  Z.of_nat (length callers) <= 2 ^ 32 ->
  (count_occ bool_dec (map snd (fst (reportAll callers mep))) true <= 1)%nat.
Proof.
  revert mep. induction callers as [| f fs IH]; intros mep Hlen.
  - simpl. lia.
  - cbn [reportAll]. unfold deleteEvent.
    set (mep1 := mkMEP _ _ _ _ _).
    pose proof (reportAll_all_false fs mep1 0) as Hfalse.
    specialize (IH mep1).
    destruct (reportAll fs mep1) as [rs mep2]. cbn [fst snd map] in *.
    destruct (Z.eqb_spec (to_int (eventCount_ mep - 1)) 0) as [E | N].
    + rewrite Hfalse.
      * cbn [count_occ]. destruct (bool_dec true true); [| congruence].
        rewrite count_occ_repeat_false. lia.
      * unfold mep1. cbn [eventCount_]. now rewrite E.
      * cbn [length] in Hlen. lia.
    + cbn [count_occ]. destruct (bool_dec false true); [discriminate |].
      apply IH. cbn [length] in Hlen. lia.
Qed.

Lemma reportAll_at_most_one_true_witness :
  (count_occ bool_dec
     (map snd (fst (reportAll [0; 1; 2; 3; 4; 5]%nat (mep_of_count 3))))
     true <= 1)%nat.
Proof.
  apply (reportAll_at_most_one_true [0; 1; 2; 3; 4; 5]%nat (mep_of_count 3)).
  vm_compute. discriminate.
Defined.

End MEPCounterMore.

(** ** The MEP: layout of the header *)

Section MEPLayoutFacts.

Import l0.

Lemma load_uint8_inj (m1 m2 : memory) (p : Z) :
  load_uint8 m1 p = load_uint8 m2 p -> m1 p = m2 p.
Proof.
  unfold load_uint8. intros H. apply N2Z.inj in H.
  pose proof (Byte.of_to_N (m1 p)) as H1.
  pose proof (Byte.of_to_N (m2 p)) as H2.
  rewrite H in H1. congruence.
Qed.

Lemma load_uint8_store (m : memory) (p q : Z) (b : Byte.byte) :
  load_uint8 (store_uint8 m p b) q
  = if q =? p then Z.of_N (Byte.to_N b) else load_uint8 m q.
Proof.
  unfold load_uint8, store_uint8. now destruct (q =? p).
Qed.

(** [firstEventNum] is the first three bytes, least significant first. *)
Lemma MEP_HDR_firstEventNum_bytes (m : memory) (hdr : Z) :
  MEP_HDR_firstEventNum m hdr
  = load_uint8 m hdr + 2 ^ 8 * load_uint8 m (hdr + 1)
    + 2 ^ 16 * load_uint8 m (hdr + 2).
Proof.
  unfold MEP_HDR_firstEventNum, load_uint32, load_uint16.
  replace (hdr + 2 + 1) with (hdr + 3) by lia.
  pose proof (load_uint8_range m hdr).
  pose proof (load_uint8_range m (hdr + 1)).
  pose proof (load_uint8_range m (hdr + 2)).
  pose proof (load_uint8_range m (hdr + 3)).
  rewrite Z.land_ones by lia.
  change (2 ^ 24) with 16777216. change (2 ^ 16) with 65536.
  change (2 ^ 8) with 256.
  Z.div_mod_to_equations. lia.
Qed.

(** X17.  The wire format.  Read as one little-endian number, the eight
    bytes at [rawData_] are [firstEventNum] in bits 0 to 23, [sourceID] in
    bits 24 to 31, [mepLength] in bits 32 to 47, [eventCount] in bits 48
    to 55 and [sourceSubID] in bits 56 to 63, as the accessors return
    them. *)
Theorem header_wire_format (m : memory) (mep : MEP) :
  load_uint32 m (rawData_ mep) + 2 ^ 32 * load_uint32 m (rawData_ mep + 4)
  = getFirstEventNum m mep
    + 2 ^ 24 * getSourceID m mep
    + 2 ^ 32 * getLength m mep
    + 2 ^ 48 * getNumberOfFragments m mep
    + 2 ^ 56 * getSourceSubID m mep.
Proof.
  unfold getFirstEventNum, getSourceID, getLength, getNumberOfFragments,
    getSourceSubID.
  rewrite MEP_HDR_firstEventNum_bytes.
  unfold MEP_HDR_sourceID, MEP_HDR_mepLength, MEP_HDR_eventCount,
    MEP_HDR_sourceSubID, load_uint32, load_uint16.
  set (p := rawData_ mep).
  replace (p + 2 + 1) with (p + 3) by lia.
  replace (p + 4 + 1) with (p + 5) by lia.
  replace (p + 4 + 2) with (p + 6) by lia.
  replace (p + 6 + 1) with (p + 7) by lia.
  change (2 ^ 8) with 256. change (2 ^ 16) with 65536.
  change (2 ^ 24) with 16777216. change (2 ^ 32) with 4294967296.
  change (2 ^ 48) with 281474976710656.
  change (2 ^ 56) with 72057594037927936.
  lia.
Qed.

(** X18.  The five accessors leave no byte of the header out: two
    memories in which they all return the same values hold the same eight
    bytes at [rawData_]. *)
Theorem accessors_determine_header (m1 m2 : memory) (mep : MEP) :
  getFirstEventNum m1 mep = getFirstEventNum m2 mep ->
  getSourceID m1 mep = getSourceID m2 mep ->
  getLength m1 mep = getLength m2 mep ->
  getNumberOfFragments m1 mep = getNumberOfFragments m2 mep ->
  getSourceSubID m1 mep = getSourceSubID m2 mep ->
  forall i, 0 <= i < sizeof_MEP_HDR ->
            m1 (rawData_ mep + i) = m2 (rawData_ mep + i).
Proof.
  unfold getFirstEventNum, getSourceID, getLength, getNumberOfFragments,
    getSourceSubID.
  rewrite !MEP_HDR_firstEventNum_bytes.
  unfold MEP_HDR_sourceID, MEP_HDR_mepLength, MEP_HDR_eventCount,
    MEP_HDR_sourceSubID, load_uint16.
  set (p := rawData_ mep).
  replace (p + 4 + 1) with (p + 5) by lia.
  intros Hf Hs Hl He Hb i Hi. rewrite sizeof_MEP_HDR_eq in Hi.
  pose proof (load_uint8_range m1 p). pose proof (load_uint8_range m2 p).
  pose proof (load_uint8_range m1 (p + 1)).
  pose proof (load_uint8_range m2 (p + 1)).
  pose proof (load_uint8_range m1 (p + 2)).
  pose proof (load_uint8_range m2 (p + 2)).
  pose proof (load_uint8_range m1 (p + 4)).
  pose proof (load_uint8_range m2 (p + 4)).
  pose proof (load_uint8_range m1 (p + 5)).
  pose proof (load_uint8_range m2 (p + 5)).
  change (2 ^ 8) with 256 in *. change (2 ^ 16) with 65536 in *.
  apply load_uint8_inj.
  assert (Hcases : i = 0 \/ i = 1 \/ i = 2 \/ i = 3 \/ i = 4 \/ i = 5
                   \/ i = 6 \/ i = 7) by lia.
  destruct Hcases as [-> | [-> | [-> | [-> | [-> | [-> | [-> | ->]]]]]]];
    rewrite ?Z.add_0_r; try assumption; lia.
Qed.

Lemma accessors_determine_header_witness :
  received56 (1000 + 3)
  = store_uint8 received56 2000 Byte.x09 (1000 + 3).
Proof.
  apply (accessors_determine_header received56
           (store_uint8 received56 2000 Byte.x09)
           (mkMEP 2 958 1000 [] false)); try reflexivity.
  vm_compute. split; [discriminate | reflexivity].
Defined.

(** X19.  Each byte of the header belongs to one field.  Writing the byte
    at offset [i] of the header leaves every accessor as it was except the
    one whose field holds that byte: [getFirstEventNum] for offsets 0 to
    2, [getSourceID] for 3, [getLength] for 4 and 5,
    [getNumberOfFragments] for 6 and [getSourceSubID] for 7; the three
    one-byte fields then return the byte written. *)
Theorem header_fields_disjoint (m : memory) (mep : MEP) (i : Z)
  (b : Byte.byte) :
  0 <= i < sizeof_MEP_HDR ->
  let m' := store_uint8 m (rawData_ mep + i) b in
  (3 <= i -> getFirstEventNum m' mep = getFirstEventNum m mep) /\
  (i <> 3 -> getSourceID m' mep = getSourceID m mep) /\
  (i < 4 \/ 6 <= i -> getLength m' mep = getLength m mep) /\
  (i <> 6 -> getNumberOfFragments m' mep = getNumberOfFragments m mep) /\
  (i <> 7 -> getSourceSubID m' mep = getSourceSubID m mep) /\
  (i = 3 -> getSourceID m' mep = Z.of_N (Byte.to_N b)) /\
  (i = 6 -> getNumberOfFragments m' mep = Z.of_N (Byte.to_N b)) /\
  (i = 7 -> getSourceSubID m' mep = Z.of_N (Byte.to_N b)).
Proof.
  rewrite sizeof_MEP_HDR_eq. intros Hi. cbv zeta.
  unfold getFirstEventNum, getSourceID, getLength, getNumberOfFragments,
    getSourceSubID.
  rewrite !MEP_HDR_firstEventNum_bytes.
  unfold MEP_HDR_sourceID, MEP_HDR_mepLength, MEP_HDR_eventCount,
    MEP_HDR_sourceSubID, load_uint16.
  set (p := rawData_ mep).
  rewrite !load_uint8_store.
  repeat split; intros H;
    repeat match goal with
      | |- context [?x =? ?y] =>
          destruct (Z.eqb_spec x y); try lia
      end;
    reflexivity.
Qed.

Lemma header_fields_disjoint_witness :
  getSourceID (store_uint8 received56 (1000 + 6) Byte.x07)
    (mkMEP 2 958 1000 [] false)
  = getSourceID received56 (mkMEP 2 958 1000 [] false)
  /\ getNumberOfFragments (store_uint8 received56 (1000 + 6) Byte.x07)
       (mkMEP 2 958 1000 [] false) = 7.
Proof.
  destruct (header_fields_disjoint received56 (mkMEP 2 958 1000 [] false)
              6 Byte.x07) as (_ & Hs & _ & _ & _ & _ & Hc & _).
  - vm_compute. split; [discriminate | reflexivity].
  - split; [apply Hs; lia | apply Hc; reflexivity].
Defined.

End MEPLayoutFacts.
